(** * ts-express-server: the item CRUD resource, its error middleware and
      its configuration, as a shallow embedding.

    The TypeScript sources are the files quoted in README.md
    (src/config/config.ts, src/models/item.ts,
    src/controllers/itemController.ts, src/routes/itemRoutes.ts,
    src/middlewares/errorHandler.ts) and src/app.ts.

    Modelling choices:
    - a JS number is an integer or NaN.  The ids in the store come from
      [Date.now()], the ids in requests from [parseInt(_, 10)]: both are
      integer valued (or NaN).  Rounding of integers beyond 2^53 is not
      modelled;
    - a JS string is a [string] of 8-bit code units;
    - a JS value (request body, response body) is a small JSON-like tree;
    - a handler runs in a state-and-exception monad over the shared
      [items] array, the response under construction, the argument given
      to [next] and the console;
    - Express itself is modelled where the sources call it: [res.status]
      refuses invalid status codes, and what [express.json()] makes of a
      request's payload (a body, or one of its errors) is part of the
      request. *)

From Stdlib Require Import ZArith String Ascii.
From stdpp Require Import base option list gmap strings.

Open Scope string_scope.
Open Scope list_scope.
Open Scope Z_scope.

(** ** JavaScript numbers, strings and values *)

Inductive number :=
  | Int (z : Z)
  | NaN.

(** [a === b] on numbers: NaN is different from everything, itself included. *)
Definition strict_eq (a b : number) : bool :=
  match a, b with
  | Int x, Int y => x =? y
  | _, _ => false
  end.

(** ToBoolean on a number: 0 and NaN are falsy. *)
Definition truthy_number (n : number) : bool :=
  match n with
  | Int z => negb (z =? 0)
  | NaN => false
  end.

(** ToBoolean on a string: only the empty string is falsy. *)
Definition truthy_string (s : string) : bool :=
  match s with
  | EmptyString => false
  | String _ _ => true
  end.

(** [a || d] where [a] is a possibly undefined number, resp. string. *)
Definition or_number (a : option number) (d : number) : number :=
  match a with
  | Some n => if truthy_number n then n else d
  | None => d
  end.

Definition or_string (a : option string) (d : string) : string :=
  match a with
  | Some s => if truthy_string s then s else d
  | None => d
  end.

#[local] Set Warnings "-register-all".
Inductive value :=
  | VUndefined
  | VNull
  | VBool (b : bool)
  | VNum (n : number)
  | VStr (s : string)
  | VArr (elems : list value)
  | VObj (props : list (string * value)).

(** [o.key] on the properties of an object (the keys of an object are
    distinct; they are kept in insertion order, as JSON prints them). *)
Fixpoint get_prop (key : string) (props : list (string * value)) : value :=
  match props with
  | [] => VUndefined
  | (k, v) :: props' => if String.eqb k key then v else get_prop key props'
  end.

(** *** parseInt(s, 10) *)

(** StrWhiteSpaceChar, restricted to code units below 256:
    TAB, LF, VT, FF, CR, SP and NBSP. *)
Definition is_white_space (c : ascii) : bool :=
  let n := nat_of_ascii c in
  bool_decide (n = 9 ∨ n = 10 ∨ n = 11 ∨ n = 12 ∨ n = 13 ∨ n = 32 ∨ n = 160)%nat.

Fixpoint trim_start (s : string) : string :=
  match s with
  | String c s' => if is_white_space c then trim_start s' else s
  | EmptyString => EmptyString
  end.

Definition digit_of (c : ascii) : option Z :=
  let n := Z.of_nat (nat_of_ascii c) in
  if (48 <=? n) && (n <=? 57) then Some (n - 48) else None.

(** The value of the longest prefix of radix-10 digits, [acc] being the
    value of the digits read so far ([None]: no digit yet). *)
Fixpoint leading_digits (s : string) (acc : option Z) : option Z :=
  match s with
  | String c s' =>
      match digit_of c with
      | Some d => leading_digits s' (Some (10 * default 0 acc + d))
      | None => acc
      end
  | EmptyString => acc
  end.

Definition parseInt (s : string) : number :=
  let t := trim_start s in
  let '(sign, t) :=
    match t with
    | String "-" r => (-1, r)
    | String "+" r => (1, r)
    | _ => (1, t)
    end in
  match leading_digits t None with
  | Some m => Int (sign * m)
  | None => NaN
  end.

(** ** src/models/item.ts *)

Record Item := { id : number; name : value }.

(** An item as the JS object handed to [res.json]. *)
Definition Item_value (i : Item) : value :=
  VObj [("id", VNum (id i)); ("name", name i)].

(** ** src/middlewares/errorHandler.ts: the error type *)

(** [interface AppError extends Error { status?: number }].  Whatever was
    thrown reaches the middleware, so [message] may be missing as well. *)
Record AppError := { message : option string; status : option number }.

(** ** The effects of a handler *)

(** The response: the status code ([res.status]) and the body once
    [res.json] has been called. *)
Record Response := { statusCode : number; sent : option value }.

Record World := {
  items : list Item;               (* export let items: Item[] = [] *)
  res : Response;
  forwarded : option AppError;     (* the argument of next(error) *)
  console : list AppError          (* what console.error printed *)
}.

Inductive Result (A : Type) :=
  | Ok (a : A)
  | Throw (e : AppError).
Arguments Ok {A} a.
Arguments Throw {A} e.

Definition M (A : Type) : Type := World → Result A * World.

Definition ret {A} (a : A) : M A := λ w, (Ok a, w).

Definition bind {A B} (m : M A) (k : A → M B) : M B :=
  λ w, match m w with
       | (Ok a, w') => k a w'
       | (Throw e, w') => (Throw e, w')
       end.

Definition throw {A} (e : AppError) : M A := λ w, (Throw e, w).

(** [try { m } catch (error) { h error }] *)
Definition try_catch {A} (m : M A) (h : AppError → M A) : M A :=
  λ w, match m w with
       | (Ok a, w') => (Ok a, w')
       | (Throw e, w') => h e w'
       end.

Notation "x <- m ;; k" := (bind m (λ x, k))
  (at level 100, m at next level, right associativity).
Notation "m ;;; k" := (bind m (λ _, k))
  (at level 100, right associativity).
Notation "'try' m 'catch' h" := (try_catch m h)
  (at level 100, m at level 100, h at level 9).

Definition get_items : M (list Item) := λ w, (Ok (items w), w).

Definition set_items (l : list Item) : M unit :=
  λ w, (Ok tt, {| items := l; res := res w;
                  forwarded := forwarded w; console := console w |}).

(** A TypeError, a RangeError: an Error with a message and no status. *)
Definition TypeError (msg : string) : AppError :=
  {| message := Some msg; status := None |}.

Definition RangeError (msg : string) : AppError :=
  {| message := Some msg; status := None |}.

(** The status codes Express accepts: the integers from 100 to 999. *)
Definition valid_status (code : number) : bool :=
  match code with
  | Int z => (100 <=? z) && (z <=? 999)
  | NaN => false
  end.

(** [res.status(code)]: Express raises a TypeError when the code is not an
    integer and a RangeError when it is below 100 or above 999, and sets
    the status code otherwise.  (Express's messages also quote the code.) *)
Definition res_status (code : number) : M unit :=
  match code with
  | NaN => throw (TypeError "Invalid status code. Status code must be an integer.")
  | Int z =>
      if (z <? 100) || (999 <? z)
      then throw (RangeError "Invalid status code. Status code must be greater than 99 and less than 1000.")
      else λ w, (Ok tt, {| items := items w;
                          res := {| statusCode := code; sent := sent (res w) |};
                          forwarded := forwarded w; console := console w |})
  end.

(** [res.json(v)] *)
Definition res_json (v : value) : M unit :=
  λ w, (Ok tt, {| items := items w;
                  res := {| statusCode := statusCode (res w); sent := Some v |};
                  forwarded := forwarded w; console := console w |}).

(** [next(error)] *)
Definition next (e : AppError) : M unit :=
  λ w, (Ok tt, {| items := items w; res := res w;
                  forwarded := Some e; console := console w |}).

(** [console.error(err)] *)
Definition console_error (e : AppError) : M unit :=
  λ w, (Ok tt, {| items := items w; res := res w;
                  forwarded := forwarded w; console := console w ++ [e] |}).

(** The world in which a request starts: nothing sent, status 200. *)
Definition fresh_res : Response := {| statusCode := Int 200; sent := None |}.

Definition start (store : list Item) : World :=
  {| items := store; res := fresh_res; forwarded := None; console := [] |}.

(** ** Array methods used by the controller *)

(** [l.find(p)]: the first element satisfying [p], or undefined. *)
Fixpoint find (p : Item → bool) (l : list Item) : option Item :=
  match l with
  | [] => None
  | x :: l' => if p x then Some x else find p l'
  end.

(** [l.findIndex(p)]: the index of the first element satisfying [p], or -1. *)
Fixpoint findIndex (p : Item → bool) (l : list Item) : Z :=
  match l with
  | [] => -1
  | x :: l' =>
      if p x then 0
      else let r := findIndex p l' in
           if r =? -1 then -1 else r + 1
  end.

(** [l.splice(i, 1)] for an index [0 <= i]: the removed elements and the
    array that remains. *)
Definition splice1 (i : nat) (l : list Item) : list Item * list Item :=
  (take 1 (drop i l), take i l ++ drop (S i) l).

(** ** Errors raised by the language itself *)

(** [const { name } = v]: undefined and null cannot be destructured; any
    other value is read at property "name". *)
Definition destructure_name (v : value) : M value :=
  match v with
  | VUndefined =>
      throw (TypeError "Cannot destructure property 'name' of 'req.body' as it is undefined.")
  | VNull =>
      throw (TypeError "Cannot destructure property 'name' of 'req.body' as it is null.")
  | VObj props => ret (get_prop "name" props)
  | VBool _ | VNum _ | VStr _ | VArr _ => ret VUndefined
  end.

(** [items[i].name = v]; writing through a missing element raises. *)
Definition set_name_at (i : Z) (v : value) : M unit :=
  l <- get_items ;;
  match l !! Z.to_nat i with
  | Some it => set_items (<[Z.to_nat i := {| id := id it; name := v |}]> l)
  | None => throw (TypeError "Cannot set properties of undefined (setting 'name')")
  end.

Definition value_of_option (o : option Item) : value :=
  match o with
  | Some i => Item_value i
  | None => VUndefined
  end.

Definition not_found : value := VObj [("message", VStr "Item not found")].

(** ** src/controllers/itemController.ts *)

Record Request := { params_id : string; body : value }.

(** Create an item.  [now] is what [Date.now()] returns during the call. *)
Definition createItem (now : Z) (req : Request) : M unit :=
  try (
    name <- destructure_name (body req) ;;
    let newItem := {| id := Int now; name := name |} in
    l <- get_items ;;
    set_items (l ++ [newItem]) ;;;
    res_status (Int 201) ;;;
    res_json (Item_value newItem)
  ) catch (λ error, next error).

(** Read all items *)
Definition getItems (req : Request) : M unit :=
  try (
    l <- get_items ;;
    res_json (VArr (Item_value <$> l))
  ) catch (λ error, next error).

(** Read single item *)
Definition getItemById (req : Request) : M unit :=
  try (
    let id_ := parseInt (params_id req) in
    l <- get_items ;;
    let item := find (λ i, strict_eq (id i) id_) l in
    match item with
    | None =>
        res_status (Int 404) ;;;
        res_json not_found
    | Some it => res_json (Item_value it)
    end
  ) catch (λ error, next error).

(** Update an item *)
Definition updateItem (req : Request) : M unit :=
  try (
    let id_ := parseInt (params_id req) in
    name <- destructure_name (body req) ;;
    l <- get_items ;;
    let itemIndex := findIndex (λ i, strict_eq (id i) id_) l in
    if itemIndex =? -1 then
      res_status (Int 404) ;;;
      res_json not_found
    else
      set_name_at itemIndex name ;;;
      l' <- get_items ;;
      res_json (value_of_option (l' !! Z.to_nat itemIndex))
  ) catch (λ error, next error).

(** Delete an item *)
Definition deleteItem (req : Request) : M unit :=
  try (
    let id_ := parseInt (params_id req) in
    l <- get_items ;;
    let itemIndex := findIndex (λ i, strict_eq (id i) id_) l in
    if itemIndex =? -1 then
      res_status (Int 404) ;;;
      res_json not_found
    else
      let '(removed, rest) := splice1 (Z.to_nat itemIndex) l in
      set_items rest ;;;
      let deletedItem := removed !! 0%nat in
      res_json (value_of_option deletedItem)
  ) catch (λ error, next error).

(** ** src/middlewares/errorHandler.ts *)

Definition errorHandler (err : AppError) : M unit :=
  console_error err ;;;
  res_status (or_number (status err) (Int 500)) ;;;
  res_json (VObj [("message", VStr (or_string (message err) "Internal Server Error"))]).

(** ** src/routes/itemRoutes.ts and src/app.ts *)

(** The five routes registered on the router mounted at /api/items, with
    the [:id] path parameter where the route has one. *)
Inductive Route :=
  | GET_root
  | GET_id (p : string)
  | POST_root
  | PUT_id (p : string)
  | DELETE_id (p : string).

Definition itemRoutes (now : Z) (r : Route) (body : value) : M unit :=
  match r with
  | GET_root => getItems {| params_id := ""; body := body |}
  | GET_id p => getItemById {| params_id := p; body := body |}
  | POST_root => createItem now {| params_id := ""; body := body |}
  | PUT_id p => updateItem {| params_id := p; body := body |}
  | DELETE_id p => deleteItem {| params_id := p; body := body |}
  end.

(** *** express.json() *)

(** The failures of the JSON body parser, by the [type] of the error it
    passes to [next]. *)
Inductive BodyErrorKind :=
  | entity_parse_failed      (* the body is not JSON, or not an object or array *)
  | request_aborted
  | request_size_invalid
  | entity_too_large
  | encoding_unsupported
  | charset_unsupported
  | stream_encoding_set
  | stream_not_readable.

(** The status the parser puts on its error. *)
Definition body_error_status (k : BodyErrorKind) : Z :=
  match k with
  | entity_parse_failed | request_aborted | request_size_invalid => 400
  | entity_too_large => 413
  | encoding_unsupported | charset_unsupported => 415
  | stream_encoding_set | stream_not_readable => 500
  end.

Definition body_error (k : BodyErrorKind) (msg : string) : AppError :=
  {| message := Some msg; status := Some (Int (body_error_status k)) |}.

(** What the body parser makes of the payload of a request: [req.body]
    (left undefined when there is no JSON body to parse), or a failure of
    kind [k] with message [msg]. *)
Inductive Payload :=
  | Body (v : value)
  | BodyError (k : BodyErrorKind) (msg : string).

(** [express.json()]: gives [req.body], or passes its error to [next]. *)
Definition express_json (p : Payload) : M value :=
  match p with
  | Body v => ret v
  | BodyError k msg => next (body_error k msg) ;;; ret VUndefined
  end.

(** [app.use(m)] for a middleware or router [m]: skipped while an error
    passed to [next] is pending. *)
Definition use (m : M unit) : M unit :=
  λ w, match forwarded w with
       | None => m w
       | Some _ => (Ok tt, w)
       end.

(** [app.use(h)] for an error handler [h]: run on the pending error. *)
Definition use_error (h : AppError → M unit) : M unit :=
  λ w, match forwarded w with
       | Some err => h err w
       | None => (Ok tt, w)
       end.

(** The body parser and the routes: what runs before the error handler. *)
Definition pipeline (now : Z) (r : Route) (p : Payload) : M unit :=
  body <- express_json p ;;
  use (itemRoutes now r body).

(** [app]: the body parser, the routes, then the global error handler on
    whatever was passed to [next]. *)
Definition app (now : Z) (r : Route) (p : Payload) : M unit :=
  pipeline now r p ;;;
  use_error errorHandler.

(** The world after one request served from a fresh response. *)
Definition handle (now : Z) (r : Route) (p : Payload) (store : list Item) : World :=
  snd (app now r p (start store)).

(** The world after one request whose body the parser gave as [body]. *)
Definition run (now : Z) (r : Route) (body : value) (store : list Item) : World :=
  handle now r (Body body) store.

(** A response that was sent with [res.json]. *)
Definition json_response (code : Z) (v : value) : Response :=
  {| statusCode := Int code; sent := Some v |}.

(** ** src/config/config.ts *)

Record Config := { port : number; nodeEnv : string }.

Section Configuration.
(** [Number(s)] on a string is the engine's StringToNumber; the
    configuration is modelled for any such conversion. *)
Variable StringToNumber : string → number.

(** [Number(v)] where [v] is a string or undefined. *)
Definition Number (v : option string) : number :=
  match v with
  | Some s => StringToNumber s
  | None => NaN
  end.

(** [env] is [process.env] after [dotenv.config()]. *)
Definition config (env : gmap string string) : Config :=
  {| port := or_number (Some (Number (env !! "PORT"))) (Int 3000);
     nodeEnv := or_string (env !! "NODE_ENV") "development" |}.
End Configuration.

(** StringToNumber on the strings made of decimal digits only (the empty
    string converts to 0); used to run [config] on examples. *)
Definition decimal_StringToNumber (s : string) : number :=
  match s with
  | EmptyString => Int 0
  | String _ _ =>
      if forallb (λ c, bool_decide (is_Some (digit_of c))) (list_ascii_of_string s)
      then match leading_digits s None with Some m => Int m | None => NaN end
      else NaN
  end.


(** ** Vocabulary of the properties *)

(** The test [i.id === id] of the three scans. *)
Definition has_id (n : number) (i : Item) : bool := strict_eq (id i) n.

(** [x] sits at index [i] of [l], satisfies [q], and nothing before it does. *)
Definition first_match (q : Item → bool) (l : list Item) (i : nat) (x : Item) : Prop :=
  l !! i = Some x ∧ q x = true ∧
  ∀ j y, (j < i)%nat → l !! j = Some y → q y = false.

(** The world a request leaves when its handler answered by itself. *)
Definition answered (store : list Item) (code : Z) (v : value) : World :=
  {| items := store; res := json_response code v;
     forwarded := None; console := [] |}.

(** The store after a sequence of [POST /] requests, each given by the
    clock reading during the call and the name in its body. *)
Fixpoint create_all (calls : list (Z * string)) (store : list Item) : list Item :=
  match calls with
  | [] => store
  | (now, nm) :: calls' =>
      create_all calls' (items (run now POST_root (VObj [("name", VStr nm)]) store))
  end.

(** The item a [POST /] request creates. *)
Definition created (c : Z * string) : Item := {| id := Int c.1; name := VStr c.2 |}.

(** ** Vocabulary of the request-level properties *)

(** The body [b] destructures, giving [nm] for [name]. *)
Definition reads_name (b : value) (nm : value) : Prop :=
  ∀ w, destructure_name b w = (Ok nm, w).

(** Destructuring the body [b] raises a TypeError with the (non-empty)
    message [msg]. *)
Definition rejects (b : value) (msg : string) : Prop :=
  msg ≠ "" ∧ ∀ w, destructure_name b w = (Throw (TypeError msg), w).

(** The world a request leaves when its handler forwarded the TypeError
    [msg] to [next] and the error middleware answered. *)
Definition rejected (store : list Item) (msg : string) : World :=
  {| items := store;
     res := json_response 500 (VObj [("message", VStr msg)]);
     forwarded := Some (TypeError msg);
     console := [TypeError msg] |}.

(** The cases a request can take, as a relation between the route, the
    body, the store before and the world after. *)
Inductive served (now : Z) (store : list Item) : Route → value → World → Prop :=
  | served_list b :
      served now store GET_root b
        (answered store 200 (VArr (Item_value <$> store)))
  | served_get_hit p b i x :
      first_match (has_id (parseInt p)) store i x →
      served now store (GET_id p) b (answered store 200 (Item_value x))
  | served_get_miss p b :
      Forall (λ x, has_id (parseInt p) x = false) store →
      served now store (GET_id p) b (answered store 404 not_found)
  | served_create b nm :
      reads_name b nm →
      served now store POST_root b
        (answered (store ++ [{| id := Int now; name := nm |}]) 201
           (Item_value {| id := Int now; name := nm |}))
  | served_create_rejected b msg :
      rejects b msg →
      served now store POST_root b (rejected store msg)
  | served_update_hit p b nm i x :
      reads_name b nm →
      first_match (has_id (parseInt p)) store i x →
      served now store (PUT_id p) b
        (answered (<[i := {| id := id x; name := nm |}]> store) 200
           (Item_value {| id := id x; name := nm |}))
  | served_update_miss p b nm :
      reads_name b nm →
      Forall (λ x, has_id (parseInt p) x = false) store →
      served now store (PUT_id p) b (answered store 404 not_found)
  | served_update_rejected p b msg :
      rejects b msg →
      served now store (PUT_id p) b (rejected store msg)
  | served_delete_hit p b i x :
      first_match (has_id (parseInt p)) store i x →
      served now store (DELETE_id p) b
        (answered (delete i store) 200 (Item_value x))
  | served_delete_miss p b :
      Forall (λ x, has_id (parseInt p) x = false) store →
      served now store (DELETE_id p) b (answered store 404 not_found).

(** The store after a sequence of requests, each given by the clock
    reading during the call, the route and the body. *)
Fixpoint serve_all (reqs : list (Z * Route * value)) (store : list Item)
  : list Item :=
  match reqs with
  | [] => store
  | (now, r, b) :: reqs' => serve_all reqs' (items (run now r b store))
  end.

(** The clock readings, as ids, of the create requests of a sequence. *)
Fixpoint create_clocks (reqs : list (Z * Route * value)) : list number :=
  match reqs with
  | [] => []
  | (now, POST_root, _) :: reqs' => Int now :: create_clocks reqs'
  | _ :: reqs' => create_clocks reqs'
  end.

(** * Properties *)

(** ** The first match of a scan *)

Lemma first_match_here q x l : q x = true → first_match q (x :: l) 0 x.
Proof.
  intros Hq. split; [done|]. split; [done|]. intros j y Hj. lia.
Qed.

Lemma first_match_later q a l i x :
  q a = false → first_match q l i x → first_match q (a :: l) (S i) x.
Proof.
  intros Ha (Hi & Hq & Hlow). repeat split; try done.
  intros [|j] y Hj Hy; simpl in Hy.
  - by inversion Hy; subst.
  - apply (Hlow j); [lia | done].
Qed.

Lemma first_match_exists q l x :
  x ∈ l → q x = true → ∃ i y, first_match q l i y.
Proof.
  induction l as [|a l IH]; intros Hin Hq.
  - by apply not_elem_of_nil in Hin.
  - destruct (q a) eqn:Ha.
    + exists 0%nat, a. by apply first_match_here.
    + apply elem_of_cons in Hin as [->|Hin]; [congruence|].
      destruct (IH Hin Hq) as (i & y & Hm).
      exists (S i), y. by apply first_match_later.
Qed.

Lemma first_match_inv_cons q a l i x :
  first_match q (a :: l) i x →
  (i = 0%nat ∧ x = a ∧ q a = true) ∨
  (∃ i', i = S i' ∧ q a = false ∧ first_match q l i' x).
Proof.
  intros (Hi & Hq & Hlow). destruct i as [|i'].
  - left. simpl in Hi. inversion Hi; subst. done.
  - right. exists i'. split; [done|]. split.
    + apply (Hlow 0%nat a); [lia | done].
    + repeat split; try done.
      intros j y Hj Hy. apply (Hlow (S j) y); [lia | done].
Qed.

Lemma find_first_match q l i x : first_match q l i x → find q l = Some x.
Proof.
  revert i. induction l as [|a l IH]; intros i Hm.
  - destruct Hm as (Hi & _). by rewrite lookup_nil in Hi.
  - apply first_match_inv_cons in Hm as [(-> & -> & Ha)|(i' & -> & Ha & Hm)];
      simpl; rewrite Ha; [done|]. by apply (IH i').
Qed.

Lemma findIndex_first_match q l i x :
  first_match q l i x → findIndex q l = Z.of_nat i.
Proof.
  revert i. induction l as [|a l IH]; intros i Hm.
  - destruct Hm as (Hi & _). by rewrite lookup_nil in Hi.
  - apply first_match_inv_cons in Hm as [(-> & -> & Ha)|(i' & -> & Ha & Hm)];
      simpl; rewrite Ha; [done|].
    rewrite (IH i' Hm).
    destruct (Z.eqb_spec (Z.of_nat i') (-1)); lia.
Qed.

Lemma find_miss q l : Forall (λ x, q x = false) l → find q l = None.
Proof.
  induction 1 as [|a l Ha _ IH]; simpl; [done|]. by rewrite Ha.
Qed.

Lemma findIndex_miss q l : Forall (λ x, q x = false) l → findIndex q l = -1.
Proof.
  induction 1 as [|a l Ha _ IH]; simpl; [done|]. by rewrite Ha, IH.
Qed.

Lemma splice1_lookup (l : list Item) i x :
  l !! i = Some x → splice1 i l = ([x], delete i l).
Proof.
  intros Hi. unfold splice1.
  rewrite (drop_S l x i Hi). simpl. rewrite take_0.
  by rewrite delete_take_drop.
Qed.

(** ** What each route does to the world *)

Lemma has_id_Int n x : has_id (Int n) x = true ↔ id x = Int n.
Proof.
  unfold has_id, strict_eq. destruct (id x) as [z|]; [|done].
  rewrite Z.eqb_eq. split; [by intros -> | by intros [= ->]].
Qed.

Lemma has_id_NaN x : has_id NaN x = false.
Proof. unfold has_id, strict_eq. by destruct (id x). Qed.

Lemma has_id_Int_false n x : id x ≠ Int n → has_id (Int n) x = false.
Proof.
  intros Hne. destruct (has_id (Int n) x) eqn:E; [|done].
  by apply has_id_Int in E.
Qed.

Arguments parseInt : simpl never.

(** Unfolds a route down to the scan it performs. *)
Ltac run_route :=
  unfold has_id in *;
  unfold run, handle, app, pipeline, use, use_error, express_json, ret,
    itemRoutes, getItemById, updateItem, deleteItem,
    set_name_at, bind, try_catch, start; simpl.

Lemma run_getItems now b store :
  run now GET_root b store = answered store 200 (VArr (Item_value <$> store)).
Proof. reflexivity. Qed.

Lemma run_createItem now props store :
  run now POST_root (VObj props) store =
  let newItem := {| id := Int now; name := get_prop "name" props |} in
  answered (store ++ [newItem]) 201 (Item_value newItem).
Proof. reflexivity. Qed.

Lemma run_getItemById_hit now p b store i x :
  first_match (has_id (parseInt p)) store i x →
  run now (GET_id p) b store = answered store 200 (Item_value x).
Proof.
  intros Hm. run_route.
  by rewrite (find_first_match _ _ _ _ Hm).
Qed.

Lemma run_getItemById_miss now p b store :
  Forall (λ x, has_id (parseInt p) x = false) store →
  run now (GET_id p) b store = answered store 404 not_found.
Proof.
  intros Hm. run_route.
  by rewrite (find_miss _ _ Hm).
Qed.

Lemma run_updateItem_hit now p props store i x :
  first_match (has_id (parseInt p)) store i x →
  let updated := {| id := id x; name := get_prop "name" props |} in
  run now (PUT_id p) (VObj props) store =
  answered (<[i := updated]> store) 200 (Item_value updated).
Proof.
  intros Hm. pose proof Hm as (Hi & _ & _).
  run_route.
  rewrite (findIndex_first_match _ _ _ _ Hm).
  destruct (Z.eqb_spec (Z.of_nat i) (-1)) as [?|_]; [lia|].
  simpl. rewrite Nat2Z.id, Hi. simpl.
  rewrite list_lookup_insert_eq; [done|]. by eapply lookup_lt_Some.
Qed.

Lemma run_updateItem_miss now p props store :
  Forall (λ x, has_id (parseInt p) x = false) store →
  run now (PUT_id p) (VObj props) store = answered store 404 not_found.
Proof.
  intros Hm. run_route.
  by rewrite (findIndex_miss _ _ Hm).
Qed.

Lemma run_deleteItem_hit now p b store i x :
  first_match (has_id (parseInt p)) store i x →
  run now (DELETE_id p) b store = answered (delete i store) 200 (Item_value x).
Proof.
  intros Hm. pose proof Hm as (Hi & _ & _).
  run_route.
  rewrite (findIndex_first_match _ _ _ _ Hm).
  destruct (Z.eqb_spec (Z.of_nat i) (-1)) as [?|_]; [lia|].
  simpl. rewrite Nat2Z.id.
  pose proof (splice1_lookup _ _ _ Hi) as Hs. unfold splice1 in Hs.
  injection Hs as -> ->. done.
Qed.

Lemma run_deleteItem_miss now p b store :
  Forall (λ x, has_id (parseInt p) x = false) store →
  run now (DELETE_id p) b store = answered store 404 not_found.
Proof.
  intros Hm. run_route.
  by rewrite (findIndex_miss _ _ Hm).
Qed.

(** ** Creation and listing *)

Lemma create_all_spec calls store :
  create_all calls store = store ++ (created <$> calls).
Proof.
  revert store. induction calls as [|[now nm] calls IH]; intros store; simpl.
  - by rewrite app_nil_r.
  - rewrite IH. by rewrite <- app_assoc.
Qed.

(** C1: after any sequence of create calls from any store, listAll answers
    200 with the whole store, which is the initial store followed by the
    created items in the order of the calls; listAll leaves the store as
    it is and forwards no error. *)
Theorem C1_listAll_insertion_order calls store now b :
  let store' := create_all calls store in
  store' = store ++ (created <$> calls) ∧
  run now GET_root b store' = answered store' 200 (VArr (Item_value <$> store')).
Proof.
  simpl. split; [apply create_all_spec | apply run_getItems].
Qed.

(** C7: on a body whose name is a string, create builds the item with the
    clock reading as id and that name, appends it to the store, answers
    201 with the item, and forwards no error. *)
Theorem C7_create_appends store now props s :
  get_prop "name" props = VStr s →
  let newItem := {| id := Int now; name := VStr s |} in
  run now POST_root (VObj props) store =
  answered (store ++ [newItem]) 201 (Item_value newItem).
Proof.
  intros Hname. rewrite run_createItem. simpl. by rewrite Hname.
Qed.

Lemma C7_create_appends_witness :
  get_prop "name" [("name", VStr "Sample Item")] = VStr "Sample Item" ∧
  run 1700000000000 POST_root (VObj [("name", VStr "Sample Item")])
      [{| id := Int 7; name := VStr "old" |}] =
  answered [{| id := Int 7; name := VStr "old" |};
            {| id := Int 1700000000000; name := VStr "Sample Item" |}]
           201
           (Item_value {| id := Int 1700000000000; name := VStr "Sample Item" |}).
Proof.
  split; [reflexivity|].
  apply (C7_create_appends [{| id := Int 7; name := VStr "old" |}]
           1700000000000 [("name", VStr "Sample Item")] "Sample Item").
  reflexivity.
Defined.

(** ** Requests for an id that is not in the store *)

Lemma Forall_has_id_Int_false n store :
  Forall (λ x, id x ≠ Int n) store →
  Forall (λ x, has_id (Int n) x = false) store.
Proof. intros H. eapply Forall_impl; [exact H|]. intros x. apply has_id_Int_false. Qed.

Lemma Forall_has_id_NaN store : Forall (λ x, has_id NaN x = false) store.
Proof. apply Forall_forall. intros x _. apply has_id_NaN. Qed.

(** C5: when no item of the store has the requested id, getById, update
    and delete each answer 404 with {"message": "Item not found"} and
    leave the store as it is. *)
Theorem C5_unknown_id_not_found store p n now b props :
  parseInt p = Int n →
  Forall (λ x, id x ≠ Int n) store →
  run now (GET_id p) b store = answered store 404 not_found ∧
  run now (PUT_id p) (VObj props) store = answered store 404 not_found ∧
  run now (DELETE_id p) b store = answered store 404 not_found.
Proof.
  intros Hp Hmiss. apply Forall_has_id_Int_false in Hmiss. rewrite <- Hp in Hmiss.
  split; [|split].
  - by apply run_getItemById_miss.
  - by apply run_updateItem_miss.
  - by apply run_deleteItem_miss.
Qed.

Lemma C5_unknown_id_not_found_witness :
  let store := [{| id := Int 1; name := VStr "a" |}] in
  run 0 (GET_id "999999") VUndefined store = answered store 404 not_found ∧
  run 0 (PUT_id "999999") (VObj [("name", VStr "Y")]) store =
    answered store 404 not_found ∧
  run 0 (DELETE_id "999999") VUndefined store = answered store 404 not_found.
Proof.
  apply (C5_unknown_id_not_found [{| id := Int 1; name := VStr "a" |}]
           "999999" 999999 0 VUndefined [("name", VStr "Y")]).
  - reflexivity.
  - repeat constructor. simpl. discriminate.
Defined.

(** C9: when the id parameter parses to NaN, getById, update and delete
    take the not-found branch for every store: 404 with
    {"message": "Item not found"}, the store as it was, nothing raised or
    forwarded to the error handler. *)
Theorem C9_NaN_id_not_found store p now b props :
  parseInt p = NaN →
  run now (GET_id p) b store = answered store 404 not_found ∧
  run now (PUT_id p) (VObj props) store = answered store 404 not_found ∧
  run now (DELETE_id p) b store = answered store 404 not_found.
Proof.
  intros Hp. pose proof (Forall_has_id_NaN store) as Hmiss. rewrite <- Hp in Hmiss.
  split; [|split].
  - by apply run_getItemById_miss.
  - by apply run_updateItem_miss.
  - by apply run_deleteItem_miss.
Qed.

Lemma C9_NaN_id_not_found_witness :
  let store := [{| id := Int 1; name := VStr "a" |}] in
  parseInt "abc" = NaN ∧
  run 0 (GET_id "abc") VUndefined store = answered store 404 not_found ∧
  run 0 (PUT_id "abc") (VObj [("name", VStr "Y")]) store =
    answered store 404 not_found ∧
  run 0 (DELETE_id "abc") VUndefined store = answered store 404 not_found.
Proof.
  split; [reflexivity|].
  apply (C9_NaN_id_not_found [{| id := Int 1; name := VStr "a" |}]
           "abc" 0 VUndefined [("name", VStr "Y")]).
  reflexivity.
Defined.

(** ** Requests for an id that is in the store *)

Lemma first_match_snoc q l x :
  Forall (λ y, q y = false) l → q x = true →
  first_match q (l ++ [x]) (length l) x.
Proof.
  intros Hmiss Hq. split; [|split; [done|]].
  - by rewrite lookup_app_r, Nat.sub_diag.
  - intros j y Hj Hy. rewrite lookup_app_l in Hy by done.
    by apply (Forall_lookup_1 _ _ _ _ Hmiss Hy).
Qed.

Lemma first_match_id store p n :
  parseInt p = Int n →
  (∃ x, x ∈ store ∧ id x = Int n) →
  ∃ i x, first_match (has_id (parseInt p)) store i x ∧ id x = Int n.
Proof.
  intros Hp (x & Hin & Hid). rewrite Hp.
  destruct (first_match_exists (has_id (Int n)) store x Hin) as (i & y & Hm).
  - by apply has_id_Int.
  - exists i, y. split; [done|]. destruct Hm as (_ & Hq & _). by apply has_id_Int.
Qed.

(** C2, as the code has it: when no item of the store already carries the
    new timestamp as its id, create followed by getById on the returned id
    answers 200 with the very item that create answered. *)
Theorem C2_create_then_getById store now now' s p b :
  parseInt p = Int now →
  Forall (λ x, id x ≠ Int now) store →
  let newItem := {| id := Int now; name := VStr s |} in
  let w := run now POST_root (VObj [("name", VStr s)]) store in
  res w = json_response 201 (Item_value newItem) ∧
  run now' (GET_id p) b (items w) = answered (items w) 200 (Item_value newItem).
Proof.
  intros Hp Hfresh. cbv zeta. rewrite run_createItem. simpl. split; [done|].
  apply (run_getItemById_hit _ _ _ _ (length store)). rewrite Hp.
  apply first_match_snoc.
  - by apply Forall_has_id_Int_false.
  - by apply has_id_Int.
Qed.

Lemma C2_create_then_getById_witness :
  let store := [{| id := Int 1699999999999; name := VStr "old" |}] in
  let newItem := {| id := Int 1700000000000; name := VStr "X" |} in
  let w := run 1700000000000 POST_root (VObj [("name", VStr "X")]) store in
  res w = json_response 201 (Item_value newItem) ∧
  run 1700000000001 (GET_id "1700000000000") VUndefined (items w) =
    answered (items w) 200 (Item_value newItem).
Proof.
  apply (C2_create_then_getById
           [{| id := Int 1699999999999; name := VStr "old" |}]
           1700000000000 1700000000001 "X" "1700000000000" VUndefined).
  - reflexivity.
  - repeat constructor. simpl. discriminate.
Defined.

(** C2 as stated fails when the store already holds an item with the same
    timestamp: getById answers with that older item. *)
Lemma C2_counterexample :
  let store := [{| id := Int 5; name := VStr "A" |}] in
  let w := run 5 POST_root (VObj [("name", VStr "X")]) store in
  parseInt "5" = Int 5 ∧
  res w = json_response 201 (Item_value {| id := Int 5; name := VStr "X" |}) ∧
  res (run 6 (GET_id "5") VUndefined (items w)) =
    json_response 200 (Item_value {| id := Int 5; name := VStr "A" |}) ∧
  res (run 6 (GET_id "5") VUndefined (items w)) ≠
    json_response 200 (Item_value {| id := Int 5; name := VStr "X" |}).
Proof.
  simpl. repeat split; try reflexivity. discriminate.
Qed.

Lemma delete_no_other_match (q : Item → bool) (l : list Item) i :
  (∀ j y, j ≠ i → l !! j = Some y → q y = false) →
  Forall (λ y, q y = false) (delete i l).
Proof.
  intros Hother. apply Forall_lookup. intros j y Hj.
  destruct (decide (j < i)%nat) as [Hlt|Hge].
  - rewrite list_lookup_delete_lt in Hj by done. apply (Hother j); [lia | done].
  - rewrite list_lookup_delete_ge in Hj by lia. apply (Hother (S j)); [lia | done].
Qed.

(** C3, as the code has it: when some item has the id, delete removes the
    first such item and no other (the store is one shorter), answers 200
    with the removed item, and a following getById on that id answers 404
    provided no other item of the store had the same id. *)
Theorem C3_delete_removes_one store p n now now' b b' :
  parseInt p = Int n →
  (∃ x, x ∈ store ∧ id x = Int n) →
  ∃ i x, first_match (has_id (Int n)) store i x ∧
    let w := run now (DELETE_id p) b store in
    w = answered (delete i store) 200 (Item_value x) ∧
    S (length (items w)) = length store ∧
    ((∀ j y, j ≠ i → store !! j = Some y → id y ≠ Int n) →
     run now' (GET_id p) b' (items w) = answered (items w) 404 not_found).
Proof.
  intros Hp Hin.
  destruct (first_match_id store p n Hp Hin) as (i & x & Hm & Hid).
  exists i, x. split; [by rewrite <- Hp|].
  cbv zeta. rewrite (run_deleteItem_hit _ _ _ _ _ _ Hm). simpl.
  destruct Hm as (Hi & _ & _). split; [done|]. split.
  - rewrite length_delete by eauto.
    apply lookup_lt_Some in Hi. lia.
  - intros Hother. apply run_getItemById_miss. rewrite Hp.
    apply delete_no_other_match. intros j y Hj Hy.
    apply has_id_Int_false. by apply (Hother j).
Qed.

Lemma C3_delete_removes_one_witness :
  let store := [{| id := Int 4; name := VStr "A" |};
                {| id := Int 5; name := VStr "B" |}] in
  ∃ i x, first_match (has_id (Int 5)) store i x ∧
    let w := run 0 (DELETE_id "5") VUndefined store in
    w = answered (delete i store) 200 (Item_value x) ∧
    S (length (items w)) = length store ∧
    ((∀ j y, j ≠ i → store !! j = Some y → id y ≠ Int 5) →
     run 1 (GET_id "5") VUndefined (items w) = answered (items w) 404 not_found).
Proof.
  apply (C3_delete_removes_one
           [{| id := Int 4; name := VStr "A" |}; {| id := Int 5; name := VStr "B" |}]
           "5" 5 0 1 VUndefined VUndefined).
  - reflexivity.
  - exists {| id := Int 5; name := VStr "B" |}. split; [|reflexivity].
    apply elem_of_cons. right. apply elem_of_cons. by left.
Defined.

(** C3 as stated fails when two items share the id: after the delete,
    getById still finds the second one. *)
Lemma C3_counterexample :
  let store := [{| id := Int 5; name := VStr "A" |};
                {| id := Int 5; name := VStr "B" |}] in
  let w := run 0 (DELETE_id "5") VUndefined store in
  w = answered [{| id := Int 5; name := VStr "B" |}] 200
        (Item_value {| id := Int 5; name := VStr "A" |}) ∧
  run 1 (GET_id "5") VUndefined (items w) =
    answered (items w) 200 (Item_value {| id := Int 5; name := VStr "B" |}) ∧
  run 1 (GET_id "5") VUndefined (items w) ≠ answered (items w) 404 not_found.
Proof.
  simpl. repeat split; try reflexivity. discriminate.
Qed.

(** C4: when some item has the id, update writes the new name into the
    first such item, keeps its id, leaves every other position of the
    store, its length and its order as they were, and answers 200 with the
    updated item. *)
Theorem C4_update_changes_only_name store p n now s :
  parseInt p = Int n →
  (∃ x, x ∈ store ∧ id x = Int n) →
  ∃ i x, first_match (has_id (Int n)) store i x ∧
    let updated := {| id := id x; name := VStr s |} in
    let w := run now (PUT_id p) (VObj [("name", VStr s)]) store in
    w = answered (items w) 200 (Item_value updated) ∧
    items w !! i = Some updated ∧
    id updated = Int n ∧
    length (items w) = length store ∧
    (∀ j, j ≠ i → items w !! j = store !! j) ∧
    id <$> items w = id <$> store.
Proof.
  intros Hp Hin.
  destruct (first_match_id store p n Hp Hin) as (i & x & Hm & Hid).
  exists i, x. split; [by rewrite <- Hp|].
  cbv zeta. rewrite (run_updateItem_hit _ _ _ _ _ _ Hm). simpl.
  destruct Hm as (Hi & _ & _).
  split; [done|]. split; [|split; [done|split; [|split]]].
  - apply list_lookup_insert_eq. by eapply lookup_lt_Some.
  - apply length_insert.
  - intros j Hj. by apply list_lookup_insert_ne.
  - rewrite list_fmap_insert. simpl. apply list_insert_id.
    by rewrite list_lookup_fmap, Hi.
Qed.

Lemma C4_update_changes_only_name_witness :
  let store := [{| id := Int 4; name := VStr "A" |};
                {| id := Int 5; name := VStr "B" |};
                {| id := Int 6; name := VStr "C" |}] in
  ∃ i x, first_match (has_id (Int 5)) store i x ∧
    let updated := {| id := id x; name := VStr "Y" |} in
    let w := run 0 (PUT_id "5") (VObj [("name", VStr "Y")]) store in
    w = answered (items w) 200 (Item_value updated) ∧
    items w !! i = Some updated ∧
    id updated = Int 5 ∧
    length (items w) = length store ∧
    (∀ j, j ≠ i → items w !! j = store !! j) ∧
    id <$> items w = id <$> store.
Proof.
  apply (C4_update_changes_only_name
           [{| id := Int 4; name := VStr "A" |};
            {| id := Int 5; name := VStr "B" |};
            {| id := Int 6; name := VStr "C" |}] "5" 5 0 "Y").
  - reflexivity.
  - exists {| id := Int 5; name := VStr "B" |}. split; [|reflexivity].
    apply elem_of_cons. right. apply elem_of_cons. by left.
Defined.

(** C10: when several items share an id, with the first of them at index
    [i] and another one at a later index [k], getById answers with the
    item at [i], update rewrites position [i] only, and delete removes
    position [i] only; the later item stays in the store as it was. *)
Theorem C10_duplicates_first_match store p n i x k y now b s :
  parseInt p = Int n →
  first_match (has_id (Int n)) store i x →
  (i < k)%nat → store !! k = Some y → id y = Int n →
  run now (GET_id p) b store = answered store 200 (Item_value x) ∧
  (let updated := {| id := id x; name := VStr s |} in
   let w := run now (PUT_id p) (VObj [("name", VStr s)]) store in
   w = answered (<[i := updated]> store) 200 (Item_value updated) ∧
   items w !! k = Some y) ∧
  (let w := run now (DELETE_id p) b store in
   w = answered (delete i store) 200 (Item_value x) ∧
   items w !! (k - 1)%nat = Some y ∧
   S (length (items w)) = length store).
Proof.
  intros Hp Hm Hik Hk Hy. rewrite <- Hp in Hm.
  split; [by apply (run_getItemById_hit _ _ _ _ i)|]. split; cbv zeta.
  - rewrite (run_updateItem_hit _ _ _ _ _ _ Hm). simpl. split; [done|].
    rewrite list_lookup_insert_ne by lia. done.
  - rewrite (run_deleteItem_hit _ _ _ _ _ _ Hm). simpl. split; [done|].
    destruct Hm as (Hi & _ & _). split.
    + rewrite list_lookup_delete_ge by lia.
      by replace (S (k - 1)) with k by lia.
    + rewrite length_delete by eauto. apply lookup_lt_Some in Hi. lia.
Qed.

Lemma C10_duplicates_first_match_witness :
  let a := {| id := Int 4; name := VStr "A" |} in
  let b1 := {| id := Int 5; name := VStr "B" |} in
  let b2 := {| id := Int 5; name := VStr "C" |} in
  let store := [a; b1; b2] in
  run 0 (GET_id "5") VUndefined store = answered store 200 (Item_value b1) ∧
  (let updated := {| id := id b1; name := VStr "Y" |} in
   let w := run 0 (PUT_id "5") (VObj [("name", VStr "Y")]) store in
   w = answered (<[1%nat := updated]> store) 200 (Item_value updated) ∧
   items w !! 2%nat = Some b2) ∧
  (let w := run 0 (DELETE_id "5") VUndefined store in
   w = answered (delete 1%nat store) 200 (Item_value b1) ∧
   items w !! (2 - 1)%nat = Some b2 ∧
   S (length (items w)) = length store).
Proof.
  apply (C10_duplicates_first_match
           [{| id := Int 4; name := VStr "A" |};
            {| id := Int 5; name := VStr "B" |};
            {| id := Int 5; name := VStr "C" |}]
           "5" 5 1%nat {| id := Int 5; name := VStr "B" |}
           2%nat {| id := Int 5; name := VStr "C" |} 0 VUndefined "Y").
  - reflexivity.
  - split; [reflexivity|]. split; [reflexivity|].
    intros [|j] z Hj Hz; [|lia]. by inversion Hz.
  - lia.
  - reflexivity.
  - reflexivity.
Defined.

(** ** The error middleware *)

(** On an error whose status is absent, falsy or a valid status code, the
    middleware logs the error and sends the JSON envelope. *)
Lemma errorHandler_answers err w :
  valid_status (or_number (status err) (Int 500)) = true →
  errorHandler err w =
    (Ok (), {| items := items w;
               res := {| statusCode := or_number (status err) (Int 500);
                         sent := Some (VObj [("message",
                                   VStr (or_string (message err)
                                           "Internal Server Error"))]) |};
               forwarded := forwarded w;
               console := console w ++ [err] |}).
Proof.
  unfold errorHandler, bind. simpl.
  destruct (or_number (status err) (Int 500)) as [z|]; [|done]. simpl.
  intros [H1 H2]%andb_prop. apply Z.leb_le in H1, H2.
  destruct (Z.ltb_spec z 100); [lia|]. destruct (Z.ltb_spec 999 z); [lia|].
  done.
Qed.

(** On any other status, [res.status] raises once the error is logged:
    nothing is sent. *)
Lemma errorHandler_raises err w :
  valid_status (or_number (status err) (Int 500)) = false →
  ∃ e, errorHandler err w =
    (Throw e, {| items := items w; res := res w;
                 forwarded := forwarded w;
                 console := console w ++ [err] |}).
Proof.
  unfold errorHandler, bind. simpl.
  destruct (or_number (status err) (Int 500)) as [z|]; simpl;
    [|by eexists].
  intros H. destruct (Z.leb_spec 100 z), (Z.leb_spec z 999);
    simpl in H; try discriminate.
  - destruct (Z.ltb_spec z 100); [lia|]. destruct (Z.ltb_spec 999 z); [|lia].
    by eexists.
  - destruct (Z.ltb_spec z 100); [|lia]. by eexists.
  - destruct (Z.ltb_spec z 100); [|lia]. by eexists.
Qed.

(** What the handlers of this application can forward: every route
    returns normally, and an error passed to [next] is a TypeError raised
    by the language, which carries no status. *)
Ltac settle_outcome :=
  simpl; eexists; split;
  [reflexivity | simpl; intros e He; first [discriminate | by inversion He]].

Lemma itemRoutes_outcome now r b store :
  ∃ w, itemRoutes now r b (start store) = (Ok (), w) ∧
       ∀ e, forwarded w = Some e → status e = None.
Proof.
  destruct r as [|p| |p|p]; unfold itemRoutes.
  - settle_outcome.
  - unfold getItemById, try_catch, bind. simpl.
    destruct (find _ store); settle_outcome.
  - unfold createItem, try_catch, bind. destruct b; settle_outcome.
  - unfold updateItem, set_name_at, try_catch, bind.
    destruct b; simpl; try settle_outcome;
      (destruct (findIndex _ store =? -1); simpl; [settle_outcome|]);
      destruct (store !! _); settle_outcome.
  - unfold deleteItem, try_catch, bind. simpl.
    destruct (findIndex _ store =? -1); settle_outcome.
Qed.

Lemma pipeline_Body now r b store :
  pipeline now r (Body b) (start store) = itemRoutes now r b (start store).
Proof. reflexivity. Qed.

(** What reaches the error handler: the parser and the routes return
    normally, and a pending error carries no status (a handler's) or one
    of the parser's status codes. *)
Lemma pipeline_outcome now r p store :
  ∃ w, pipeline now r p (start store) = (Ok (), w) ∧
       ∀ e, forwarded w = Some e →
            status e = None ∨
            ∃ k, status e = Some (Int (body_error_status k)).
Proof.
  destruct p as [b|k msg].
  - rewrite pipeline_Body.
    destruct (itemRoutes_outcome now r b store) as (w & Hw & Hst).
    exists w. split; [done|]. intros e He. left. by apply Hst.
  - eexists. split; [reflexivity|]. simpl. intros e [= <-]. right. by exists k.
Qed.

Lemma body_error_status_valid k :
  valid_status (Int (body_error_status k)) = true ∧
  truthy_number (Int (body_error_status k)) = true.
Proof. by destruct k. Qed.



(** X13: no request makes [app] raise: whatever the route, the body and
    the store, [app] returns normally; failures end in the middleware. *)
Lemma app_never_throws now r b store :
  (app now r b (start store)).1 = Ok ().
Proof.
  unfold app, bind.
  destruct (pipeline_outcome now r b store) as (w & -> & Hst).
  unfold use_error. destruct (forwarded w) as [err|] eqn:Hf; [|done].
  rewrite errorHandler_answers; [done|].
  destruct (Hst err eq_refl) as [->|[k ->]]; [done|]. simpl.
  destruct (body_error_status_valid k) as [Hv Ht]. simpl in Ht.
  by rewrite Ht.
Qed.

(** A request whose handler forwarded an error is answered with 500. *)
Lemma run_forwarded_500 now r b store e :
  forwarded (run now r b store) = Some e →
  statusCode (res (run now r b store)) = Int 500.
Proof.
  unfold run, handle, app, bind. rewrite pipeline_Body.
  destruct (itemRoutes_outcome now r b store) as (w & -> & Hst).
  unfold use_error.
  destruct (forwarded w) as [err|] eqn:Hf; simpl; [|by rewrite Hf].
  rewrite errorHandler_answers by (by rewrite (Hst err eq_refl)).
  simpl. intros _. by rewrite (Hst err eq_refl).
Qed.

(** For instance, a body that cannot be destructured makes create answer
    500 with the store as it was. *)
Lemma run_createItem_undefined_body now store :
  items (run now POST_root VUndefined store) = store ∧
  statusCode (res (run now POST_root VUndefined store)) = Int 500.
Proof. done. Qed.

(** ** The configuration *)

(** C8: the port is read from PORT and is 3000 when PORT is not set; the
    mode is read from NODE_ENV and is "development" when NODE_ENV is not
    set.  A value that is set is used when it is truthy. *)
Theorem C8_config_defaults (StringToNumber : string → number)
    (env : gmap string string) :
  (env !! "PORT" = None → port (config StringToNumber env) = Int 3000) ∧
  (env !! "NODE_ENV" = None →
   nodeEnv (config StringToNumber env) = "development") ∧
  (∀ s, env !! "PORT" = Some s →
        truthy_number (StringToNumber s) = true →
        port (config StringToNumber env) = StringToNumber s) ∧
  (∀ s, env !! "NODE_ENV" = Some s → s ≠ "" →
        nodeEnv (config StringToNumber env) = s).
Proof.
  unfold config; simpl. repeat split.
  - by intros ->.
  - by intros ->.
  - intros s -> Ht. simpl. by rewrite Ht.
  - intros s -> Hs. simpl. by destruct s.
Qed.

Lemma C8_config_defaults_witness :
  config decimal_StringToNumber ∅ =
    {| port := Int 3000; nodeEnv := "development" |} ∧
  config decimal_StringToNumber
    (<["PORT" := "8080"]> (<["NODE_ENV" := "production"]> ∅)) =
    {| port := Int 8080; nodeEnv := "production" |}.
Proof.
  split.
  - destruct (C8_config_defaults decimal_StringToNumber ∅) as (Hp & He & _).
    specialize (Hp eq_refl). specialize (He eq_refl).
    destruct (config decimal_StringToNumber ∅) as [pt md].
    simpl in Hp, He. by rewrite Hp, He.
  - destruct (C8_config_defaults decimal_StringToNumber
                (<["PORT" := "8080"]> (<["NODE_ENV" := "production"]> ∅)))
      as (_ & _ & Hp & He).
    specialize (Hp "8080" eq_refl eq_refl).
    specialize (He "production" eq_refl ltac:(discriminate)).
    destruct (config decimal_StringToNumber _) as [pt md].
    simpl in Hp, He. by rewrite Hp, He.
Defined.

(** * Beyond the claims: the routes as a whole *)

(** ** Every request takes one of the cases of [served] *)

Lemma scan_cases (q : Item → bool) (l : list Item) :
  Forall (λ x, q x = false) l ∨ ∃ i x, first_match q l i x.
Proof.
  induction l as [|a l IH].
  - left. constructor.
  - destruct (q a) eqn:Ha.
    + right. exists 0%nat, a. by apply first_match_here.
    + destruct IH as [Hmiss|(i & x & Hm)].
      * left. by constructor.
      * right. exists (S i), x. by apply first_match_later.
Qed.

Lemma first_match_not_miss q l i x :
  first_match q l i x → Forall (λ y, q y = false) l → False.
Proof.
  intros (Hi & Hq & _) Hmiss.
  pose proof (Forall_lookup_1 _ _ _ _ Hmiss Hi) as Hx. simpl in Hx. congruence.
Qed.

Lemma first_match_unique q l i x j y :
  first_match q l i x → first_match q l j y → i = j ∧ x = y.
Proof.
  intros (Hi & Hqi & Hlow_i) (Hj & Hqj & Hlow_j).
  assert (i = j) as ->.
  { destruct (Nat.lt_trichotomy i j) as [Hlt|[Heq|Hgt]]; [|done|].
    - specialize (Hlow_j i x Hlt Hi). congruence.
    - specialize (Hlow_i j y Hgt Hj). congruence. }
  split; [done|]. congruence.
Qed.

Lemma destructure_name_cases b :
  (∃ nm, reads_name b nm) ∨ (∃ msg, rejects b msg).
Proof.
  destruct b; try (left; eexists; intros w; reflexivity);
    right; eexists; (split; [|intros w; reflexivity]); discriminate.
Qed.

Lemma reads_name_not_rejects b nm msg : reads_name b nm → rejects b msg → False.
Proof.
  intros Hr [_ Hj]. specialize (Hr (start [])). specialize (Hj (start [])).
  congruence.
Qed.

Lemma rejects_inv b msg : rejects b msg → b = VUndefined ∨ b = VNull.
Proof.
  intros [_ Hj]. specialize (Hj (start [])).
  destruct b; try discriminate; [by left | by right].
Qed.

Lemma reads_name_inv b nm : reads_name b nm → b ≠ VUndefined ∧ b ≠ VNull.
Proof.
  intros Hr. specialize (Hr (start [])).
  destruct b; try discriminate; done.
Qed.

Lemma run_createItem_reads now b nm store :
  reads_name b nm →
  run now POST_root b store =
  answered (store ++ [{| id := Int now; name := nm |}]) 201
    (Item_value {| id := Int now; name := nm |}).
Proof.
  intros Hr. unfold run, handle, app, pipeline, use, use_error, express_json,
    ret, itemRoutes, createItem, bind, try_catch. simpl.
  by rewrite Hr.
Qed.

Lemma run_createItem_rejects now b msg store :
  rejects b msg → run now POST_root b store = rejected store msg.
Proof.
  intros [Hmsg Hj]. unfold run, handle, app, pipeline, use, use_error,
    express_json, ret, itemRoutes, createItem, bind, try_catch.
  simpl. rewrite Hj. by destruct msg.
Qed.

Lemma run_updateItem_reads_hit now p b nm store i x :
  reads_name b nm →
  first_match (has_id (parseInt p)) store i x →
  run now (PUT_id p) b store =
  answered (<[i := {| id := id x; name := nm |}]> store) 200
    (Item_value {| id := id x; name := nm |}).
Proof.
  intros Hr Hm. pose proof Hm as (Hi & _ & _).
  run_route. rewrite Hr. simpl.
  rewrite (findIndex_first_match _ _ _ _ Hm).
  destruct (Z.eqb_spec (Z.of_nat i) (-1)) as [?|_]; [lia|].
  simpl. rewrite Nat2Z.id, Hi. simpl.
  rewrite list_lookup_insert_eq; [done|]. by eapply lookup_lt_Some.
Qed.

Lemma run_updateItem_reads_miss now p b nm store :
  reads_name b nm →
  Forall (λ x, has_id (parseInt p) x = false) store →
  run now (PUT_id p) b store = answered store 404 not_found.
Proof.
  intros Hr Hm. run_route. rewrite Hr. simpl.
  by rewrite (findIndex_miss _ _ Hm).
Qed.

Lemma run_updateItem_rejects now p b msg store :
  rejects b msg → run now (PUT_id p) b store = rejected store msg.
Proof. intros [Hmsg Hj]. run_route. rewrite Hj. by destruct msg. Qed.

Lemma run_served now r b store : served now store r b (run now r b store).
Proof.
  destruct r as [|p| |p|p].
  - rewrite run_getItems. constructor.
  - destruct (scan_cases (has_id (parseInt p)) store) as [Hmiss|(i & x & Hm)].
    + rewrite run_getItemById_miss by done. by constructor.
    + rewrite (run_getItemById_hit _ _ _ _ _ _ Hm). by econstructor.
  - destruct (destructure_name_cases b) as [(nm & Hr)|(msg & Hj)].
    + rewrite (run_createItem_reads _ _ _ _ Hr). by constructor.
    + rewrite (run_createItem_rejects _ _ _ _ Hj). by constructor.
  - destruct (destructure_name_cases b) as [(nm & Hr)|(msg & Hj)].
    + destruct (scan_cases (has_id (parseInt p)) store) as [Hmiss|(i & x & Hm)].
      * rewrite (run_updateItem_reads_miss _ _ _ _ _ Hr Hmiss). by econstructor.
      * rewrite (run_updateItem_reads_hit _ _ _ _ _ _ _ Hr Hm). by econstructor.
    + rewrite (run_updateItem_rejects _ _ _ _ _ Hj). by constructor.
  - destruct (scan_cases (has_id (parseInt p)) store) as [Hmiss|(i & x & Hm)].
    + rewrite run_deleteItem_miss by done. by constructor.
    + rewrite (run_deleteItem_hit _ _ _ _ _ _ Hm). by econstructor.
Qed.

(** Case analysis on what a request did: replaces the world after the
    request by each of the cases of [served]. *)
Ltac by_served now r b store :=
  let Hs := fresh "Hs" in
  let w := fresh "w" in
  let Hw := fresh "Hw" in
  pose proof (run_served now r b store) as Hs;
  remember (run now r b store) as w eqn:Hw in *; clear Hw;
  destruct Hs.

(** ** Reading *)

(** X1: the two GET routes only read: whatever the id parameter and the
    body, the store is afterwards what it was and nothing is forwarded to
    the error handler. *)
Theorem get_routes_read_only now p b store :
  items (run now GET_root b store) = store ∧
  forwarded (run now GET_root b store) = None ∧
  items (run now (GET_id p) b store) = store ∧
  forwarded (run now (GET_id p) b store) = None.
Proof.
  rewrite run_getItems. split; [done|]. split; [done|].
  destruct (scan_cases (has_id (parseInt p)) store) as [Hmiss|(i & x & Hm)].
  - by rewrite run_getItemById_miss.
  - by rewrite (run_getItemById_hit _ _ _ _ _ _ Hm).
Qed.

(** X2: getById answers 200 exactly when some item of the store has the
    parsed id, and 404 exactly when none has; there is no third status. *)
Theorem getItemById_status_iff now p b store :
  let code := statusCode (res (run now (GET_id p) b store)) in
  (code = Int 200 ↔ ∃ x, x ∈ store ∧ strict_eq (id x) (parseInt p) = true) ∧
  (code = Int 404 ↔ ∀ x, x ∈ store → strict_eq (id x) (parseInt p) = false) ∧
  (code = Int 200 ∨ code = Int 404).
Proof.
  cbv zeta.
  destruct (scan_cases (has_id (parseInt p)) store) as [Hmiss|(i & x & Hm)].
  - rewrite run_getItemById_miss by done. simpl.
    rewrite Forall_forall in Hmiss. split; [|split; [|by right]].
    + split; [discriminate|]. intros (x & Hin & Hx).
      specialize (Hmiss x Hin). unfold has_id in Hmiss. congruence.
    + split; [|done]. intros _ x Hin. by apply (Hmiss x).
  - rewrite (run_getItemById_hit _ _ _ _ _ _ Hm). simpl.
    destruct Hm as (Hi & Hq & _). split; [|split; [|by left]].
    + split; [|done]. intros _. exists x. split; [|done].
      apply list_elem_of_lookup. by exists i.
    + split; [discriminate|]. intros Hall.
      assert (x ∈ store) as Hin by (apply list_elem_of_lookup; by exists i).
      specialize (Hall x Hin). unfold has_id in Hq. congruence.
Qed.

(** X3: delete answers exactly what getById answers on the same store and
    id: the same status and the same body (the item it removes, or the
    not-found message). *)
Theorem deleteItem_answers_as_getItemById now now' p b b' store :
  res (run now (DELETE_id p) b store) = res (run now' (GET_id p) b' store).
Proof.
  destruct (scan_cases (has_id (parseInt p)) store) as [Hmiss|(i & x & Hm)].
  - by rewrite run_deleteItem_miss, run_getItemById_miss.
  - by rewrite (run_deleteItem_hit _ _ _ _ _ _ Hm),
               (run_getItemById_hit _ _ _ _ _ _ Hm).
Qed.

(** ** Updating *)

Lemma first_match_insert q l i x u :
  first_match q l i x → q u = true → first_match q (<[i := u]> l) i u.
Proof.
  intros (Hi & _ & Hlow) Hu. split; [|split; [done|]].
  - apply list_lookup_insert_eq. by eapply lookup_lt_Some.
  - intros j y Hj Hy. rewrite list_lookup_insert_ne in Hy by lia.
    by apply (Hlow j).
Qed.

Lemma first_match_renamed p store i x nm :
  first_match (has_id (parseInt p)) store i x →
  first_match (has_id (parseInt p))
    (<[i := {| id := id x; name := nm |}]> store) i {| id := id x; name := nm |}.
Proof.
  intros Hm. apply (first_match_insert _ _ _ x); [done|].
  by destruct Hm as (_ & Hq & _).
Qed.

(** X4: a getById that follows an update of the same id, with a JSON
    object as body, answers what the update answered: the updated item on
    a hit, the not-found message on a miss. *)
Theorem updateItem_then_getItemById now now' p props b store :
  let w := run now (PUT_id p) (VObj props) store in
  res (run now' (GET_id p) b (items w)) = res w.
Proof.
  cbv zeta.
  destruct (scan_cases (has_id (parseInt p)) store) as [Hmiss|(i & x & Hm)].
  - rewrite run_updateItem_miss by done. simpl.
    by rewrite run_getItemById_miss.
  - rewrite (run_updateItem_hit _ _ _ _ _ _ Hm). simpl.
    by rewrite (run_getItemById_hit _ _ _ _ i _
                  (first_match_renamed _ _ _ _ _ Hm)).
Qed.

(** X5: the last write wins: two updates of the same id in a row, each
    with a JSON object as body, leave the same world as the second update
    alone. *)
Theorem updateItem_last_write_wins now now' p props1 props2 store :
  run now' (PUT_id p) (VObj props2)
      (items (run now (PUT_id p) (VObj props1) store)) =
  run now' (PUT_id p) (VObj props2) store.
Proof.
  destruct (scan_cases (has_id (parseInt p)) store) as [Hmiss|(i & x & Hm)].
  - by rewrite (run_updateItem_miss now p props1 store Hmiss).
  - rewrite (run_updateItem_hit now _ _ _ _ _ Hm). simpl.
    rewrite (run_updateItem_hit now' _ props2 _ i _
               (first_match_renamed _ _ _ _ _ Hm)). simpl.
    rewrite (run_updateItem_hit now' _ props2 _ _ _ Hm). simpl.
    by rewrite list_insert_insert_eq.
Qed.

(** X6: whatever the body (a rejected one included), an update changes
    neither the length of the store nor the id at any position. *)
Theorem updateItem_preserves_ids now p b store :
  let w := run now (PUT_id p) b store in
  id <$> items w = id <$> store ∧ length (items w) = length store.
Proof.
  cbv zeta. pose proof (run_served now (PUT_id p) b store) as Hs.
  inversion Hs as [| | | | |? ? nm i x Hr Hm Hw| |? ? msg Hj Hw| |]; simpl; try done.
  destruct Hm as (Hi & _ & _). split.
  - rewrite list_fmap_insert. simpl. apply list_insert_id.
    by rewrite list_lookup_fmap, Hi.
  - apply length_insert.
Qed.

(** ** Deleting *)

(** X7: a delete removes at most one item and never one with another id:
    what remains is a sublist of the store, at most one shorter, and the
    items whose id differs from the requested one are all still there, in
    the same order. *)
Theorem deleteItem_keeps_other_items now p b store :
  let w := run now (DELETE_id p) b store in
  items w `sublist_of` store ∧
  (length store ≤ S (length (items w)))%nat ∧
  filter (λ x, has_id (parseInt p) x = false) (items w) =
  filter (λ x, has_id (parseInt p) x = false) store.
Proof.
  cbv zeta.
  destruct (scan_cases (has_id (parseInt p)) store) as [Hmiss|(i & x & Hm)].
  - rewrite run_deleteItem_miss by done. simpl. split; [done|]. split; [lia|done].
  - rewrite (run_deleteItem_hit _ _ _ _ _ _ Hm). simpl.
    destruct Hm as (Hi & Hq & _). split; [apply sublist_delete|]. split.
    + rewrite length_delete by eauto. lia.
    + rewrite <- (take_drop_middle store i x Hi) at 2.
      rewrite delete_take_drop, !filter_app.
      rewrite filter_cons_False; [done|]. rewrite Hq. discriminate.
Qed.

(** X8: creating an item and then deleting the id that create returned
    gives the store back, when no item already had that id; the delete
    answers 200 with the item that create answered. *)
Theorem createItem_then_deleteItem now now' p b props store :
  parseInt p = Int now →
  Forall (λ x, id x ≠ Int now) store →
  let w := run now POST_root (VObj props) store in
  sent (res (run now' (DELETE_id p) b (items w))) = sent (res w) ∧
  statusCode (res (run now' (DELETE_id p) b (items w))) = Int 200 ∧
  items (run now' (DELETE_id p) b (items w)) = store.
Proof.
  intros Hp Hfresh. cbv zeta. rewrite run_createItem. simpl.
  set (newItem := {| id := Int now; name := get_prop "name" props |}).
  assert (first_match (has_id (parseInt p)) (store ++ [newItem])
            (length store) newItem) as Hm.
  { rewrite Hp. apply first_match_snoc.
    - by apply Forall_has_id_Int_false.
    - by apply has_id_Int. }
  rewrite (run_deleteItem_hit _ _ _ _ _ _ Hm). simpl.
  split; [done|]. split; [done|].
  by rewrite (delete_middle store [] newItem), app_nil_r.
Qed.

Lemma createItem_then_deleteItem_witness :
  let store := [{| id := Int 7; name := VStr "old" |}] in
  let w := run 1700000000000 POST_root (VObj [("name", VStr "X")]) store in
  sent (res (run 1700000000001 (DELETE_id "1700000000000") VUndefined (items w)))
    = sent (res w) ∧
  statusCode (res (run 1700000000001 (DELETE_id "1700000000000") VUndefined
                     (items w))) = Int 200 ∧
  items (run 1700000000001 (DELETE_id "1700000000000") VUndefined (items w))
    = store.
Proof.
  apply (createItem_then_deleteItem 1700000000000 1700000000001
           "1700000000000" VUndefined [("name", VStr "X")]
           [{| id := Int 7; name := VStr "old" |}]).
  - reflexivity.
  - repeat constructor. simpl. discriminate.
Defined.

(** ** Failures *)

(** X9: a request whose handler forwarded an error to [next] has not
    modified the store, and is answered with status 500. *)
Theorem failed_request_keeps_store now r b store e :
  forwarded (run now r b store) = Some e →
  items (run now r b store) = store ∧
  statusCode (res (run now r b store)) = Int 500.
Proof.
  intros Hf. by_served now r b store; simpl in *; done.
Qed.

Lemma failed_request_keeps_store_witness :
  let store := [{| id := Int 7; name := VStr "old" |}] in
  items (run 8 (PUT_id "7") VNull store) = store ∧
  statusCode (res (run 8 (PUT_id "7") VNull store)) = Int 500.
Proof.
  apply (failed_request_keeps_store 8 (PUT_id "7") VNull
           [{| id := Int 7; name := VStr "old" |}]
           (TypeError "Cannot destructure property 'name' of 'req.body' as it is null.")).
  reflexivity.
Defined.

(** X10: a request ends in the error handler exactly when it is a create
    or an update whose body is undefined or null; reads and deletes never
    fail, and neither does a create or update with any other body. *)
Theorem request_fails_iff now r b store :
  (∃ e, forwarded (run now r b store) = Some e) ↔
  (b = VUndefined ∨ b = VNull) ∧ (r = POST_root ∨ ∃ p, r = PUT_id p).
Proof.
  split.
  - intros [e Hf]. by_served now r b store; simpl in Hf; try discriminate;
      match goal with Hj : rejects _ _ |- _ =>
        split; [by apply (rejects_inv _ _ Hj) | eauto]
      end.
  - intros [[-> | ->] [-> | [p ->]]]; eexists; reflexivity.
Qed.


(** X12: the console holds exactly the error that was forwarded: one
    entry when the handler called [next], nothing otherwise. *)
Theorem console_logs_forwarded_error now r b store :
  let w := run now r b store in
  console w = match forwarded w with Some e => [e] | None => [] end.
Proof.
  cbv zeta. by_served now r b store; reflexivity.
Qed.

(** X14: only a create can lengthen the store and only a delete can
    shorten it, each by one item and exactly when it answers with success;
    every other request keeps the length. *)
Theorem store_length_by_route now r b store :
  let w := run now r b store in
  match r with
  | POST_root =>
      (statusCode (res w) = Int 201 ∧ length (items w) = S (length store)) ∨
      (statusCode (res w) = Int 500 ∧ length (items w) = length store)
  | DELETE_id _ =>
      (statusCode (res w) = Int 200 ∧ S (length (items w)) = length store) ∨
      (statusCode (res w) = Int 404 ∧ length (items w) = length store)
  | _ => length (items w) = length store
  end.
Proof.
  cbv zeta. by_served now r b store; simpl; try done.
  - left. split; [done|]. rewrite length_app. simpl. lia.
  - by right.
  - apply length_insert.
  - left. split; [done|].
    match goal with Hm : first_match _ _ _ _ |- _ => destruct Hm as (Hi & _ & _) end.
    rewrite length_delete by eauto. apply lookup_lt_Some in Hi. lia.
  - by right.
Qed.

(** ** Where ids come from *)

Lemma ids_after_request now r b store :
  let ids' := id <$> items (run now r b store) in
  ids' = id <$> store ∨
  (r = POST_root ∧ ids' = (id <$> store) ++ [Int now]) ∨
  (∃ i, ids' = delete i (id <$> store)).
Proof.
  cbv zeta. by_served now r b store; simpl; try (by left).
  - right. left. split; [done|]. by rewrite fmap_app.
  - left. match goal with Hm : first_match _ _ _ _ |- _ =>
            destruct Hm as (Hi & _ & _) end.
    rewrite list_fmap_insert. simpl. apply list_insert_id.
    by rewrite list_lookup_fmap, Hi.
  - right. right. eexists. apply list_fmap_delete.
Qed.

(** X19: no request invents or rewrites an id: every id in the store
    after a request was an id of the store before it, or the request is a
    create and the id is its clock reading. *)
Theorem ids_from_store_or_clock now r b store x :
  x ∈ items (run now r b store) →
  id x ∈ id <$> store ∨ (r = POST_root ∧ id x = Int now).
Proof.
  intros Hin. apply (list_elem_of_fmap_2 id) in Hin.
  destruct (ids_after_request now r b store) as [He|[[Hr He]|[i He]]];
    cbv zeta in He; rewrite He in Hin.
  - by left.
  - apply elem_of_app in Hin as [Hin|Hin]; [by left|].
    right. split; [done|]. by apply list_elem_of_singleton in Hin.
  - left. by eapply list_elem_of_delete_inv.
Qed.

Lemma ids_from_store_or_clock_witness :
  let store := [{| id := Int 7; name := VStr "old" |}] in
  let x := {| id := Int 9; name := VStr "new" |} in
  id x ∈ id <$> store ∨ (POST_root = POST_root ∧ id x = Int 9).
Proof.
  apply (ids_from_store_or_clock 9 POST_root (VObj [("name", VStr "new")])
           [{| id := Int 7; name := VStr "old" |}]
           {| id := Int 9; name := VStr "new" |}).
  apply elem_of_cons. right. apply elem_of_cons. by left.
Defined.

Lemma create_clocks_cons_subseteq q reqs n :
  n ∈ create_clocks reqs → n ∈ create_clocks (q :: reqs).
Proof.
  destruct q as [[now r] b]. destruct r; simpl; try done.
  intros Hn. apply elem_of_cons. by right.
Qed.

(** X20: ids stay pairwise distinct as long as the clock does not repeat:
    from a store with distinct ids, a sequence of requests whose creates
    have pairwise distinct clock readings, none of them an id already in
    the store, leaves a store with distinct ids. *)
Theorem serve_all_unique_ids reqs store :
  NoDup (id <$> store) →
  NoDup (create_clocks reqs) →
  (∀ n, n ∈ id <$> store → n ∉ create_clocks reqs) →
  NoDup (id <$> serve_all reqs store).
Proof.
  revert store. induction reqs as [|[[now r] b] reqs IH];
    intros store Hids Hclk Hfresh; [done|].
  simpl. apply IH.
  - destruct (ids_after_request now r b store) as [He|[[-> He]|[i He]]];
      cbv zeta in He; rewrite He.
    + done.
    + apply NoDup_app. split; [done|]. split; [|apply NoDup_singleton].
      intros n Hn Hn'. apply list_elem_of_singleton in Hn' as ->.
      apply (Hfresh _ Hn). simpl. apply elem_of_cons. by left.
    + eapply sublist_NoDup; [exact Hids | apply sublist_delete].
  - destruct r; simpl in Hclk; try done. by apply NoDup_cons in Hclk as [_ ?].
  - intros n Hn Hn'.
    destruct (ids_after_request now r b store) as [He|[[-> He]|[i He]]];
      cbv zeta in He; rewrite He in Hn.
    + apply (Hfresh n Hn). by apply create_clocks_cons_subseteq.
    + apply elem_of_app in Hn as [Hn|Hn].
      * apply (Hfresh n Hn). by apply create_clocks_cons_subseteq.
      * apply list_elem_of_singleton in Hn as ->.
        simpl in Hclk. apply NoDup_cons in Hclk as [Hnew _]. done.
    + apply list_elem_of_delete_inv in Hn.
      apply (Hfresh n Hn). by apply create_clocks_cons_subseteq.
Qed.

Lemma serve_all_unique_ids_witness :
  NoDup (id <$> serve_all
           [(1, POST_root, VObj [("name", VStr "a")]);
            (2, POST_root, VObj [("name", VStr "b")]);
            (2, PUT_id "1", VObj [("name", VStr "c")]);
            (3, DELETE_id "2", VUndefined);
            (3, POST_root, VObj [("name", VStr "d")])] []).
Proof.
  apply (serve_all_unique_ids
           [(1, POST_root, VObj [("name", VStr "a")]);
            (2, POST_root, VObj [("name", VStr "b")]);
            (2, PUT_id "1", VObj [("name", VStr "c")]);
            (3, DELETE_id "2", VUndefined);
            (3, POST_root, VObj [("name", VStr "d")])] []).
  - apply NoDup_nil_2.
  - simpl. repeat (apply NoDup_cons_2 || apply NoDup_nil_2);
      rewrite ?elem_of_cons, elem_of_nil; intros H;
      repeat destruct H as [H|H]; try discriminate; done.
  - intros n Hn. by apply elem_of_nil in Hn.
Defined.

(** ** The error middleware and the configuration, for every input *)

(** X15: the middleware answers exactly when the error's status is
    absent, falsy (0 or NaN) or a valid status code (an integer from 100
    to 999): the response then has a valid status and the body
    {"message": m} with [m] not empty.  On any other status (42, -1,
    1000, ...) [res.status] raises after the error was logged and nothing
    is sent.  The store is not touched either way. *)
Theorem errorHandler_response_well_formed err w :
  (∃ w', errorHandler err w = (Ok (), w') ∧
     (status err = None ∨
      ∃ n, status err = Some n ∧
           (truthy_number n = false ∨ valid_status n = true)) ∧
     valid_status (statusCode (res w')) = true ∧
     (∃ m, sent (res w') = Some (VObj [("message", VStr m)]) ∧ m ≠ "") ∧
     items w' = items w) ∨
  (∃ e w', errorHandler err w = (Throw e, w') ∧
     (∃ n, status err = Some n ∧
           truthy_number n = true ∧ valid_status n = false) ∧
     res w' = res w ∧
     items w' = items w ∧
     console w' = console w ++ [err]).
Proof.
  destruct (valid_status (or_number (status err) (Int 500))) eqn:Hv.
  - left. eexists. split; [by apply errorHandler_answers|]. simpl.
    split; [|split; [done|split; [|done]]].
    + destruct (status err) as [n|]; [|by left]. right. exists n.
      split; [done|]. simpl in Hv.
      destruct (truthy_number n); [by right | by left].
    + eexists. split; [reflexivity|].
      destruct (message err) as [[|c s]|]; simpl; discriminate.
  - right. destruct (errorHandler_raises err w Hv) as [e He].
    exists e. eexists. split; [exact He|]. simpl.
    split; [|done].
    destruct (status err) as [n|]; simpl in Hv; [|discriminate].
    exists n. split; [done|].
    destruct (truthy_number n); [done|discriminate].
Qed.

(** X16: whatever the environment holds, the configured port is never 0
    nor NaN and the configured mode is never the empty string. *)
Theorem config_never_falsy (StringToNumber : string → number)
    (env : gmap string string) :
  truthy_number (port (config StringToNumber env)) = true ∧
  nodeEnv (config StringToNumber env) ≠ "".
Proof.
  unfold config. simpl. split.
  - destruct (truthy_number (Number StringToNumber (env !! "PORT"))) eqn:Ht; done.
  - destruct (env !! "NODE_ENV") as [[|c s]|]; simpl; discriminate.
Qed.

(** X17: a PORT that is set but converts to 0 or NaN is replaced by 3000,
    and a NODE_ENV that is set to the empty string by "development". *)
Theorem config_falls_back_on_falsy (StringToNumber : string → number)
    (env : gmap string string) :
  (∀ s, env !! "PORT" = Some s →
        truthy_number (StringToNumber s) = false →
        port (config StringToNumber env) = Int 3000) ∧
  (env !! "NODE_ENV" = Some "" →
   nodeEnv (config StringToNumber env) = "development").
Proof.
  unfold config. simpl. split.
  - intros s -> Ht. simpl. by rewrite Ht.
  - by intros ->.
Qed.

Lemma config_falls_back_on_falsy_witness :
  config decimal_StringToNumber
    (<["PORT" := "0"]> (<["NODE_ENV" := ""]> ∅)) =
    {| port := Int 3000; nodeEnv := "development" |} ∧
  port (config decimal_StringToNumber (<["PORT" := "http"]> ∅)) = Int 3000.
Proof.
  split.
  - destruct (config_falls_back_on_falsy decimal_StringToNumber
                (<["PORT" := "0"]> (<["NODE_ENV" := ""]> ∅))) as (Hp & He).
    specialize (Hp "0" eq_refl eq_refl). specialize (He eq_refl).
    destruct (config decimal_StringToNumber _) as [pt md].
    simpl in Hp, He. by rewrite Hp, He.
  - destruct (config_falls_back_on_falsy decimal_StringToNumber
                (<["PORT" := "http"]> ∅)) as (Hp & _).
    exact (Hp "http" eq_refl eq_refl).
Defined.

(** ** How the id parameter is read *)

Lemma leading_digits_stop s c t acc :
  digit_of c = None →
  leading_digits (s +:+ String c t) acc = leading_digits s acc.
Proof.
  intros Hc. revert acc. induction s as [|a s IH]; intros acc; simpl.
  - by rewrite Hc.
  - destruct (digit_of a); [apply IH | done].
Qed.

Lemma trim_start_append s u :
  trim_start s ≠ "" → trim_start (s +:+ u) = trim_start s +:+ u.
Proof.
  induction s as [|a s IH]; simpl; [done|].
  destruct (is_white_space a); [apply IH | done].
Qed.

Lemma parseInt_trailing p c t n :
  parseInt p = Int n → digit_of c = None →
  parseInt (p +:+ String c t) = Int n.
Proof.
  unfold parseInt. intros Hp Hc.
  assert (trim_start p ≠ "") as Hne.
  { intros He. rewrite He in Hp. discriminate. }
  rewrite (trim_start_append _ _ Hne).
  destruct (trim_start p) as [|a r]; [done|].
  change (String a r +:+ String c t) with (String a (r +:+ String c t)).
  destruct a as [[] [] [] [] [] [] [] []]; cbv beta iota zeta in Hp |- *;
    first
      [ by rewrite leading_digits_stop
      | change (String ?a (r +:+ String c t))
          with (String a r +:+ String c t);
        by rewrite leading_digits_stop ].
Qed.

Lemma parseInt_leading_space c p :
  is_white_space c = true → parseInt (String c p) = parseInt p.
Proof. intros Hc. unfold parseInt. simpl. by rewrite Hc. Qed.

Lemma run_same_id now r r' b store :
  match r, r' with
  | GET_id p, GET_id p' | PUT_id p, PUT_id p' | DELETE_id p, DELETE_id p' =>
      parseInt p = parseInt p'
  | _, _ => False
  end →
  run now r b store = run now r' b store.
Proof.
  destruct r, r'; try done; intros Hp;
    unfold run, handle, app, pipeline, use, use_error, express_json, ret,
      itemRoutes, getItemById, updateItem, deleteItem;
    simpl; by rewrite Hp.
Qed.

(** X18: the id parameter is read leniently: when it parses to an
    integer, white space put before it and any text put after it that
    starts with a non-digit change nothing to what getById, update and
    delete do. *)
Theorem id_parameter_is_read_leniently now p n c t sp b store :
  parseInt p = Int n →
  digit_of c = None →
  is_white_space sp = true →
  let p' := String sp (p +:+ String c t) in
  run now (GET_id p') b store = run now (GET_id p) b store ∧
  run now (PUT_id p') b store = run now (PUT_id p) b store ∧
  run now (DELETE_id p') b store = run now (DELETE_id p) b store.
Proof.
  intros Hp Hc Hsp. cbv zeta.
  assert (parseInt (String sp (p +:+ String c t)) = parseInt p) as He.
  { rewrite (parseInt_leading_space _ _ Hsp), Hp.
    by apply parseInt_trailing. }
  repeat split; by apply run_same_id.
Qed.

Lemma id_parameter_is_read_leniently_witness :
  let store := [{| id := Int 12; name := VStr "a" |}] in
  run 0 (GET_id " 12abc") VUndefined store =
    run 0 (GET_id "12") VUndefined store ∧
  run 0 (PUT_id " 12abc") VUndefined store =
    run 0 (PUT_id "12") VUndefined store ∧
  run 0 (DELETE_id " 12abc") VUndefined store =
    run 0 (DELETE_id "12") VUndefined store.
Proof.
  apply (id_parameter_is_read_leniently 0 "12" 12 "a" "bc" " " VUndefined
           [{| id := Int 12; name := VStr "a" |}]);
    reflexivity.
Defined.
